(** * agent-smith: the headless browser adapter

    A shallow embedding of [src/agent_smith/computer/browser.py].

    The adapter is glue over an external automation driver (Playwright): every
    method is a short sequence of awaited driver calls.  The driver is not
    part of the repository, so it is modelled as an oracle that decides, from
    the calls issued so far, whether the next call raises and what bytes a
    screenshot returns.  A method is a computation that extends the log of
    driver calls and either returns a value or raises. *)

From Stdlib Require Import ZArith NArith List String Ascii Bool Lia.
From Stdlib.Strings Require Import Byte.
From Stdlib Require Import DecimalString DecimalPos DecimalZ.
Import ListNotations.

Local Open Scope string_scope.
Local Open Scope list_scope.

(* ===================================================================== *)
(** * Python values *)
(* ===================================================================== *)

Module Py.

(** A [dict] with [str] keys, as written in a dict literal.  The literals of
    the source repeat no key, so the first binding of a key is its value. *)
Definition dict (V : Type) : Type := list (string * V).

(** [d[key]]; [None] stands for [KeyError]. *)
Fixpoint getitem {V : Type} (d : dict V) (key : string) : option V :=
  match d with
  | [] => None
  | (k, v) :: d' => if String.eqb k key then Some v else getitem d' key
  end.

(** [d.get(key, default)] *)
Definition get {V : Type} (d : dict V) (key : string) (default : V) : V :=
  match getitem d key with
  | Some v => v
  | None => default
  end.

(** [list(d.keys())] *)
Definition keys {V : Type} (d : dict V) : list string := map fst d.

(** [x in l] for a list of [str]: comparison by [==]. *)
Definition contains (l : list string) (x : string) : bool :=
  existsb (String.eqb x) l.

(** An exception instance.  [except Exception] catches the instances of
    [Exception]; [asyncio.CancelledError], [KeyboardInterrupt] and the other
    direct children of [BaseException] are not among them. *)
Record exc : Type := mk_exc {
  isinstance_Exception : bool;
  str : string
}.

(** [KeyError(key)]; its [str] is the [repr] of the key. *)
Definition KeyError (key : string) : exc :=
  mk_exc true (String "'" (key ++ "'")%string).

(** [str(n)] for an [int]. *)
Definition str_of_int (n : Z) : string := NilZero.string_of_int (Z.to_int n).

(** ** [base64] *)

Definition b64_alphabet : string :=
  "ABCDEFGHIJKLMNOPQRSTUVWXYZabcdefghijklmnopqrstuvwxyz0123456789+/".

(** The character of a 6-bit value. *)
Definition b64_char (n : N) : ascii :=
  match String.get (N.to_nat n) b64_alphabet with
  | Some c => c
  | None => "="%char
  end.

(** The four 6-bit values of a 24-bit group, high bits first. *)
Definition sextets (n : N) : N * N * N * N :=
  ((n / 262144) mod 64, (n / 4096) mod 64, (n / 64) mod 64, n mod 64)%N.

(** The 24-bit group of three bytes, the first in the high bits. *)
Definition group24 (a b c : byte) : N :=
  (Byte.to_N a * 65536 + Byte.to_N b * 256 + Byte.to_N c)%N.

(** [base64.b64encode(s).decode("utf-8")]: the standard alphabet, padded
    with [=] to a multiple of four characters.  The encoded text is ASCII,
    so decoding it as UTF-8 changes no character. *)
Fixpoint b64encode (s : list byte) : string :=
  match s with
  | [] => ""
  | [a] =>
      let '(s0, s1, _, _) := sextets (group24 a x00 x00) in
      String (b64_char s0) (String (b64_char s1) "==")
  | [a; b] =>
      let '(s0, s1, s2, _) := sextets (group24 a b x00) in
      String (b64_char s0) (String (b64_char s1) (String (b64_char s2) "="))
  | a :: b :: c :: rest =>
      let '(s0, s1, s2, s3) := sextets (group24 a b c) in
      String (b64_char s0) (String (b64_char s1)
        (String (b64_char s2) (String (b64_char s3) (b64encode rest))))
  end.

(** The 6-bit value of a character of the alphabet. *)
Fixpoint index_from (i : N) (c : ascii) (s : string) : option N :=
  match s with
  | EmptyString => None
  | String c' s' => if Ascii.eqb c c' then Some i else index_from (N.succ i) c s'
  end.

Definition b64_value (c : ascii) : option N := index_from 0 c b64_alphabet.

Definition byte_of (n : N) : byte :=
  match Byte.of_N n with
  | Some b => b
  | None => x00
  end.

(** The 24-bit group of four 6-bit values. *)
Definition join24 (v0 v1 v2 v3 : N) : N :=
  (((v0 * 64 + v1) * 64 + v2) * 64 + v3)%N.

(** [base64.b64decode] on padded text of the standard alphabet: four
    characters give three bytes, and a last group that ends in one or two
    [=] gives two bytes or one. *)
Fixpoint b64decode (s : string) : option (list byte) :=
  match s with
  | EmptyString => Some []
  | String c0 (String c1 (String c2 (String c3 rest))) =>
      match b64_value c0, b64_value c1 with
      | Some v0, Some v1 =>
          if Ascii.eqb c2 "=" then
            match Ascii.eqb c3 "=", rest with
            | true, EmptyString => Some [byte_of (join24 v0 v1 0 0 / 65536)]
            | _, _ => None
            end
          else
            match b64_value c2 with
            | None => None
            | Some v2 =>
                if Ascii.eqb c3 "=" then
                  match rest with
                  | EmptyString =>
                      let n := join24 v0 v1 v2 0 in
                      Some [byte_of (n / 65536); byte_of ((n / 256) mod 256)]
                  | String _ _ => None
                  end
                else
                  match b64_value c3, b64decode rest with
                  | Some v3, Some tl =>
                      let n := join24 v0 v1 v2 v3 in
                      Some (byte_of (n / 65536) :: byte_of ((n / 256) mod 256)
                            :: byte_of (n mod 256) :: tl)
                  | _, _ => None
                  end
            end
      | _, _ => None
      end
  | _ => None
  end.

End Py.

(* ===================================================================== *)
(** * The driver *)
(* ===================================================================== *)

(** The awaited calls into Playwright, with the arguments the adapter
    passes. *)
Inductive call : Type :=
| playwright_start
| chromium_launch (chromium_sandbox headless : bool) (args : list string)
| browser_new_page
| page_set_viewport_size (width height : Z)
| page_goto (url : string)
| page_go_back
| page_go_forward
| page_screenshot (full_page : bool)
| page_evaluate (expression : string)
| mouse_move (x y : Z)
| mouse_down
| mouse_up
| mouse_click (x y : Z) (button : string)
| mouse_dblclick (x y : Z)
| mouse_wheel (delta_x delta_y : Z)
| keyboard_type (text : string)
| keyboard_down (key : string)
| keyboard_press (key : string)
| keyboard_up (key : string)
| browser_close
| playwright_stop.

(** The driver as an oracle over the history of calls: [fails h c] is the
    exception the call [c] raises after the calls [h], if it raises, and
    [png h] the bytes a screenshot taken after [h] returns. *)
Record driver : Type := {
  fails : list call -> call -> option Py.exc;
  png : list call -> list byte
}.

(** What a run leaves behind: the driver calls attempted, oldest first, and
    the lines printed to standard output. *)
Record world : Type := {
  calls : list call;
  stdout : list string
}.

Definition log (c : call) (w : world) : world :=
  {| calls := calls w ++ [c]; stdout := stdout w |}.

Definition log_all (cs : list call) (w : world) : world :=
  {| calls := calls w ++ cs; stdout := stdout w |}.

Definition echo (line : string) (w : world) : world :=
  {| calls := calls w; stdout := stdout w ++ [line] |}.

(* ===================================================================== *)
(** * Coroutines: state and exceptions *)
(* ===================================================================== *)

Inductive result (A : Type) : Type :=
| Ok (a : A)
| Raise (e : Py.exc).

Arguments Ok {A} a.
Arguments Raise {A} e.

(** An [async def] body, run to completion against a driver.  The effects
    made before an exception stay in the world. *)
Definition io (A : Type) : Type := driver -> world -> world * result A.

Definition ret {A : Type} (a : A) : io A := fun _ w => (w, Ok a).

Definition raise {A : Type} (e : Py.exc) : io A := fun _ w => (w, Raise e).

Definition bind {A B : Type} (m : io A) (k : A -> io B) : io B :=
  fun drv w =>
    match m drv w with
    | (w', Ok a) => k a drv w'
    | (w', Raise e) => (w', Raise e)
    end.

Declare Scope io_scope.
Delimit Scope io_scope with io.
Notation "x <- m ;; k" := (bind m (fun x => k))
  (at level 61, m at next level, right associativity) : io_scope.
Notation "m ;; k" := (bind m (fun _ => k))
  (at level 61, right associativity) : io_scope.
Local Open Scope io_scope.

(** [await c] for a driver call whose value the adapter drops. *)
Definition await (c : call) : io unit :=
  fun drv w =>
    match fails drv (calls w) c with
    | Some e => (log c w, Raise e)
    | None => (log c w, Ok tt)
    end.

(** [await self._page.screenshot(...)]: the call returns bytes. *)
Definition await_bytes (c : call) : io (list byte) :=
  fun drv w =>
    match fails drv (calls w) c with
    | Some e => (log c w, Raise e)
    | None => (log c w, Ok (png drv (calls w)))
    end.

(** [print(line)] *)
Definition print (line : string) : io unit := fun _ w => (echo line w, Ok tt).

(** [for a in l: body(a)] *)
Fixpoint for_each {A : Type} (l : list A) (body : A -> io unit) : io unit :=
  match l with
  | [] => ret tt
  | a :: l' => body a ;; for_each l' body
  end.

(** [try: body / except Exception as e: handler(e)] *)
Definition try_except_Exception {A : Type} (body : io A) (handler : Py.exc -> io A) : io A :=
  fun drv w =>
    match body drv w with
    | (w', Ok a) => (w', Ok a)
    | (w', Raise e) =>
        if Py.isinstance_Exception e then handler e drv w' else (w', Raise e)
    end.

(** [d[key]] inside a coroutine. *)
Definition subscript (d : Py.dict Z) (key : string) : io Z :=
  match Py.getitem d key with
  | Some v => ret v
  | None => raise (Py.KeyError key)
  end.

(** The calls of a list issued one after the other, up to the first that
    raises. *)
Definition issue (cs : list call) : io unit := for_each cs await.

(* ===================================================================== *)
(** * browser.py *)
(* ===================================================================== *)

Definition CUA_KEY_TO_PLAYWRIGHT_KEY : Py.dict string :=
  [ ("/", "Divide");
    ("\", "Backslash");
    ("alt", "Alt");
    ("arrowdown", "ArrowDown");
    ("arrowleft", "ArrowLeft");
    ("arrowright", "ArrowRight");
    ("arrowup", "ArrowUp");
    ("backspace", "Backspace");
    ("capslock", "CapsLock");
    ("cmd", "Meta");
    ("ctrl", "ControlOrMeta");
    ("delete", "Delete");
    ("end", "End");
    ("enter", "Enter");
    ("esc", "Escape");
    ("home", "Home");
    ("insert", "Insert");
    ("option", "Alt");
    ("pagedown", "PageDown");
    ("pageup", "PageUp");
    ("shift", "Shift");
    ("space", " ");
    ("super", "Meta");
    ("tab", "Tab");
    ("win", "Meta") ].

(** The list literal of [keypress]'s membership test. *)
Definition MODIFIERS : list string :=
  ["Control"; "Alt"; "Shift"; "Meta"; "ControlOrMeta"].

Definition is_modifier (mapped_key : string) : bool :=
  Py.contains MODIFIERS mapped_key.

(** [self.dimensions] *)
Definition dimensions : Z * Z := (1024, 768)%Z.

(** The attributes [__aenter__] binds; [None] is an attribute that holds
    [None].  A handle is a plain object, so it is truthy. *)
Record HeadlessChromeBrowser : Type := {
  _playwright : option unit;
  _browser : option unit;
  _page : option unit
}.

Definition truthy {A : Type} (o : option A) : bool :=
  match o with
  | Some _ => true
  | None => false
  end.

Section Adapter.

(** [str.lower].  Python lowers by the Unicode tables (the Kelvin sign
    lowers to the letter k, for one); nothing below depends on which
    function it is. *)
Variable lower : string -> string.

Definition mapped (key : string) : string :=
  Py.get CUA_KEY_TO_PLAYWRIGHT_KEY (lower key) key.

(** One turn of [keypress]'s first loop over the two lists it fills. *)
Definition classify (acc : list string * list string) (key : string)
  : list string * list string :=
  let '(modifier_keys, regular_keys) := acc in
  let mapped_key := mapped key in
  if is_modifier mapped_key
  then (modifier_keys ++ [mapped_key], regular_keys)
  else (modifier_keys, regular_keys ++ [mapped_key]).

Definition keypress (keys : list string) : io unit :=
  let '(modifier_keys, regular_keys) := fold_left classify keys ([], []) in
  for_each modifier_keys (fun modifier => await (keyboard_down modifier)) ;;
  for_each regular_keys (fun key => await (keyboard_press key)) ;;
  for_each (rev modifier_keys) (fun modifier => await (keyboard_up modifier)).

End Adapter.

(** The bodies below run between [__aenter__] and [__aexit__], where
    [self._page] is the page [__aenter__] created.  [wait] only sleeps and
    is left out. *)

Definition __aenter__ : io HeadlessChromeBrowser :=
  await playwright_start ;;
  let '(width, height) := dimensions in
  let launch_args :=
    [ ("--window-size=" ++ Py.str_of_int width ++ "," ++ Py.str_of_int height)%string;
      "--disable-extensions";
      "--disable-file-system" ] in
  await (chromium_launch true true launch_args) ;;
  await browser_new_page ;;
  await (page_set_viewport_size width height) ;;
  await (page_goto "https://google.com") ;;
  ret {| _playwright := Some tt; _browser := Some tt; _page := Some tt |}.

Definition __aexit__ (self : HeadlessChromeBrowser) : io unit :=
  (if truthy (_browser self) then await browser_close else ret tt) ;;
  (if truthy (_playwright self) then await playwright_stop else ret tt).

Definition screenshot : io string :=
  png_bytes <- await_bytes (page_screenshot false) ;;
  ret (Py.b64encode png_bytes).

Definition back : io unit := await page_go_back.

Definition forward : io unit := await page_go_forward.

Definition click (x y : Z) (button : string) : io unit :=
  if button =? "back" then back
  else if button =? "forward" then forward
  else if button =? "wheel" then await (mouse_wheel x y)
  else
    let button_mapping := [("left", "left"); ("right", "right")] in
    let button_type := Py.get button_mapping button "left" in
    await (mouse_click x y button_type).

Definition double_click (x y : Z) : io unit := await (mouse_dblclick x y).

Definition scroll (x y scroll_x scroll_y : Z) : io unit :=
  await (mouse_move x y) ;;
  await (page_evaluate
    ("window.scrollBy(" ++ Py.str_of_int scroll_x ++ ", " ++ Py.str_of_int scroll_y ++ ")")%string).

Definition type (text : string) : io unit := await (keyboard_type text).

Definition move (x y : Z) : io unit := await (mouse_move x y).

(** [await self._page.mouse.move(point["x"], point["y"])] *)
Definition move_to (point : Py.dict Z) : io unit :=
  x <- subscript point "x" ;;
  y <- subscript point "y" ;;
  await (mouse_move x y).

Definition drag (path : list (Py.dict Z)) : io unit :=
  match path with
  | [] => ret tt
  | first :: rest =>
      move_to first ;;
      await mouse_down ;;
      for_each rest move_to ;;
      await mouse_up
  end.

Definition goto (url : string) : io unit :=
  try_except_Exception
    (await (page_goto url))
    (fun e => print ("Error navigating to " ++ url ++ ": " ++ Py.str e)%string).

(** [async with HeadlessChromeBrowser() as chrome: body(chrome)].
    [__aexit__] returns [None], so an exception of the body is raised
    again once the exit has run; an exception of the exit replaces it. *)
Definition async_with {A : Type} (body : HeadlessChromeBrowser -> io A) : io A :=
  self <- __aenter__ ;;
  fun drv w =>
    let '(w', r) := body self drv w in
    match __aexit__ self drv w' with
    | (w'', Ok _) => (w'', r)
    | (w'', Raise e) => (w'', Raise e)
    end.

(* ===================================================================== *)
(** * Drivers and inputs to run the model on *)
(* ===================================================================== *)

(** A driver none of whose calls raises. *)
Definition never_fails (drv : driver) : Prop :=
  forall h c, fails drv h c = None.

Definition png_magic : list byte := [x89; x50; x4e; x47; x0d; x0a; x1a; x0a].

(** Every call succeeds; a screenshot is the PNG signature alone. *)
Definition steady : driver :=
  {| fails := fun _ _ => None; png := fun _ => png_magic |}.

(** Every call succeeds; a screenshot is the PNG signature and four bytes
    more. *)
Definition camera : driver :=
  {| fails := fun _ _ => None;
     png := fun _ => png_magic ++ [x00; xfb; xff; xbf] |}.

Definition net_error : Py.exc :=
  Py.mk_exc true "net::ERR_NAME_NOT_RESOLVED".

(** Navigation to anything but the start page fails; the rest works. *)
Definition offline : driver :=
  {| fails := fun _ c =>
       match c with
       | page_goto url => if url =? "https://google.com" then None else Some net_error
       | _ => None
       end;
     png := fun _ => png_magic |}.

Definition close_error : Py.exc :=
  Py.mk_exc true "Target page, context or browser has been closed".

(** Closing the browser raises; the rest works. *)
Definition close_fails : driver :=
  {| fails := fun _ c =>
       match c with
       | browser_close => Some close_error
       | _ => None
       end;
     png := fun _ => png_magic |}.

(** The task is cancelled while a navigation is awaited. *)
Definition cancelled : driver :=
  {| fails := fun _ c =>
       match c with
       | page_goto _ => Some (Py.mk_exc false "")
       | _ => None
       end;
     png := fun _ => png_magic |}.

Definition entered : HeadlessChromeBrowser :=
  {| _playwright := Some tt; _browser := Some tt; _page := Some tt |}.

Definition fresh : world := {| calls := []; stdout := [] |}.

(** [str.lower] on ASCII text. *)
Definition ascii_lower_char (c : ascii) : ascii :=
  let n := nat_of_ascii c in
  if (65 <=? n)%nat && (n <=? 90)%nat then ascii_of_nat (n + 32) else c.

Fixpoint ascii_lower (s : string) : string :=
  match s with
  | EmptyString => EmptyString
  | String c s' => String (ascii_lower_char c) (ascii_lower s')
  end.

Definition point (x y : Z) : Py.dict Z := [("x", x); ("y", y)].

(** The point [p] is a dict that holds [x] under "x" and [y] under "y". *)
Definition has_xy (p : Py.dict Z) (x y : Z) : Prop :=
  Py.getitem p "x" = Some x /\ Py.getitem p "y" = Some y.

(** The position and the exception of the first call of [cs] that raises
    when the calls are issued in order after the calls [h]; [None] when the
    driver serves them all. *)
Fixpoint first_failure (drv : driver) (h : list call) (cs : list call)
  : option (nat * Py.exc) :=
  match cs with
  | [] => None
  | c :: cs' =>
      match fails drv h c with
      | Some e => Some (0%nat, e)
      | None =>
          match first_failure drv (h ++ [c]) cs' with
          | Some (n, e) => Some (S n, e)
          | None => None
          end
      end
  end.

(** The calls [__aenter__] awaits, in order. *)
Definition startup : list call :=
  [ playwright_start;
    chromium_launch true true
      ["--window-size=1024,768"; "--disable-extensions"; "--disable-file-system"];
    browser_new_page;
    page_set_viewport_size 1024 768;
    page_goto "https://google.com" ].

(** The release calls of an entered session, in order. *)
Definition teardown : list call := [browser_close; playwright_stop].

Definition launch_error : Py.exc :=
  Py.mk_exc true "Executable doesn't exist".

(** The browser cannot be launched; the rest works. *)
Definition launch_fails : driver :=
  {| fails := fun _ c =>
       match c with
       | chromium_launch _ _ _ => Some launch_error
       | _ => None
       end;
     png := fun _ => png_magic |}.

Definition page_crashed : Py.exc := Py.mk_exc true "Page crashed".

(** Key presses raise; key-downs and key-ups work. *)
Definition press_fails : driver :=
  {| fails := fun _ c =>
       match c with
       | keyboard_press _ => Some page_crashed
       | _ => None
       end;
     png := fun _ => png_magic |}.

(** Pointer moves raise; the rest works. *)
Definition move_fails : driver :=
  {| fails := fun _ c =>
       match c with
       | mouse_move _ _ => Some page_crashed
       | _ => None
       end;
     png := fun _ => png_magic |}.

(** The text [scroll] has the page evaluate. *)
Definition scroll_script (scroll_x scroll_y : Z) : string :=
  ("window.scrollBy(" ++ Py.str_of_int scroll_x ++ ", "
     ++ Py.str_of_int scroll_y ++ ")")%string.

(** The character [c] does not occur in [s]. *)
Fixpoint free_of (c : ascii) (s : string) : Prop :=
  match s with
  | EmptyString => True
  | String a s' => a <> c /\ free_of c s'
  end.

(** The first of "x" and "y" that the point does not hold, in the order the
    source reads them. *)
Definition missing_key (p : Py.dict Z) : option string :=
  match Py.getitem p "x", Py.getitem p "y" with
  | None, _ => Some "x"
  | Some _, None => Some "y"
  | Some _, Some _ => None
  end.

(* ===================================================================== *)
(** * Sequencing *)
(* ===================================================================== *)

Lemma log_all_nil (w : world) : log_all [] w = w.
Proof.
  destruct w as [cs out]. unfold log_all. simpl. now rewrite app_nil_r.
Qed.

Lemma log_all_cons (c : call) (cs : list call) (w : world) :
  log_all cs (log c w) = log_all (c :: cs) w.
Proof.
  unfold log_all, log. simpl. now rewrite <- app_assoc.
Qed.

Lemma log_all_app (cs1 cs2 : list call) (w : world) :
  log_all cs2 (log_all cs1 w) = log_all (cs1 ++ cs2) w.
Proof.
  unfold log_all. simpl. now rewrite app_assoc.
Qed.

(** An awaited call is logged whether or not it raises. *)
Lemma await_calls (c : call) (drv : driver) (w : world) :
  fst (await c drv w) = log c w.
Proof.
  unfold await. now destruct (fails drv (calls w) c).
Qed.

Lemma await_served (c : call) (drv : driver) (w : world) :
  fails drv (calls w) c = None -> await c drv w = (log c w, Ok tt).
Proof.
  intros H. unfold await. now rewrite H.
Qed.

Lemma await_raises (c : call) (drv : driver) (w : world) (e : Py.exc) :
  fails drv (calls w) c = Some e -> await c drv w = (log c w, Raise e).
Proof.
  intros H. unfold await. now rewrite H.
Qed.

(** What [bind] does on a run. *)
Lemma bind_run {A B : Type} (m : io A) (k : A -> io B) (drv : driver) (w : world) :
  bind m k drv w =
  match m drv w with
  | (w', Ok a) => k a drv w'
  | (w', Raise e) => (w', Raise e)
  end.
Proof. reflexivity. Qed.

Lemma bind_assoc {A B C : Type} (m : io A) (k : A -> io B) (k' : B -> io C)
  (drv : driver) (w : world) :
  bind (bind m k) k' drv w = bind m (fun a => bind (k a) k') drv w.
Proof.
  rewrite !bind_run. destruct (m drv w) as [w' [a|e]]; reflexivity.
Qed.

(** Runs of [m] that agree give runs of [m ;; k] that agree. *)
Lemma bind_congr {A B : Type} (m : io A) (k k' : A -> io B) (drv : driver) (w : world) :
  (forall a w', k a drv w' = k' a drv w') -> bind m k drv w = bind m k' drv w.
Proof.
  intros H. rewrite !bind_run. destruct (m drv w) as [w' [a|e]]; auto.
Qed.

(** A loop whose body is one awaited call issues the calls of its list. *)
Lemma for_each_await {A : Type} (f : A -> call) (l : list A) :
  for_each l (fun a => await (f a)) = issue (map f l).
Proof.
  unfold issue. induction l as [|a l IH]; simpl.
  - reflexivity.
  - now rewrite IH.
Qed.

(** Two loops in a row are one loop over the two lists. *)
Lemma for_each_app {A : Type} (body : A -> io unit) (l1 l2 : list A)
  (drv : driver) (w : world) :
  (for_each l1 body ;; for_each l2 body) drv w = for_each (l1 ++ l2) body drv w.
Proof.
  revert w. induction l1 as [|a l1 IH]; intros w; simpl.
  - reflexivity.
  - rewrite bind_assoc. apply bind_congr. intros _ w'. apply IH.
Qed.

Lemma issue_app (cs1 cs2 : list call) (drv : driver) (w : world) :
  (issue cs1 ;; issue cs2) drv w = issue (cs1 ++ cs2) drv w.
Proof. apply for_each_app. Qed.

Lemma issue_one (c : call) (drv : driver) (w : world) :
  issue [c] drv w = await c drv w.
Proof.
  unfold issue. simpl. rewrite bind_run.
  destruct (await c drv w) as [w' [[]|e]]; reflexivity.
Qed.

Lemma issue_cons (c : call) (cs : list call) :
  issue (c :: cs) = (await c ;; issue cs).
Proof. reflexivity. Qed.

(** Against a driver that serves every call, the whole list is issued. *)
Lemma issue_never_fails (drv : driver) (cs : list call) (w : world) :
  never_fails drv -> issue cs drv w = (log_all cs w, Ok tt).
Proof.
  intros Hd. revert w. induction cs as [|c cs IH]; intros w.
  - unfold issue. simpl. unfold ret. now rewrite log_all_nil.
  - rewrite issue_cons. unfold bind. rewrite (await_served c drv w (Hd _ _)).
    rewrite IH. now rewrite log_all_cons.
Qed.

(** Against any driver, what is attempted is an initial segment of the
    list, and nothing is printed. *)
Lemma issue_prefix (drv : driver) (cs : list call) (w : world) :
  exists n, fst (issue cs drv w) = log_all (firstn n cs) w.
Proof.
  revert w. induction cs as [|c cs IH]; intros w.
  - exists 0%nat. simpl. now rewrite log_all_nil.
  - rewrite issue_cons. unfold bind, await.
    destruct (fails drv (calls w) c) as [e|].
    + exists 1%nat. simpl. unfold log_all, log. reflexivity.
    + destruct (IH (log c w)) as [n Hn]. exists (S n).
      rewrite Hn. simpl. now rewrite log_all_cons.
Qed.

Lemma never_fails_steady : never_fails steady.
Proof. intros h c. reflexivity. Qed.

(* ===================================================================== *)
(** * The key table *)
(* ===================================================================== *)

(** The dict literal binds every key once, so reading the first binding of
    a key reads the dict. *)
Lemma CUA_keys_NoDup : NoDup (Py.keys CUA_KEY_TO_PLAYWRIGHT_KEY).
Proof.
  unfold Py.keys. simpl.
  repeat (constructor; [ simpl; intuition discriminate | ]).
  constructor.
Qed.

Lemma contains_In (l : list string) (x : string) :
  Py.contains l x = true <-> In x l.
Proof.
  unfold Py.contains. rewrite existsb_exists. split.
  - intros [y [Hy Heq]]. apply String.eqb_eq in Heq. now subst.
  - intros H. exists x. split; [assumption | apply String.eqb_refl].
Qed.

(** A name is held down as a modifier exactly when its mapped value is one
    of the five identifiers, letter for letter. *)
Lemma is_modifier_spec (key : string) :
  is_modifier key = true <->
  key = "Control" \/ key = "Alt" \/ key = "Shift" \/ key = "Meta" \/ key = "ControlOrMeta".
Proof.
  unfold is_modifier. rewrite contains_In. simpl. intuition.
Qed.

Lemma getitem_nil {V : Type} (key : string) :
  Py.getitem (@nil (string * V)) key = None.
Proof. reflexivity. Qed.

Lemma getitem_cons {V : Type} (k : string) (v : V) (d : Py.dict V) (key : string) :
  Py.getitem ((k, v) :: d) key = if k =? key then Some v else Py.getitem d key.
Proof. reflexivity. Qed.

Lemma get_present {V : Type} (d : Py.dict V) (key : string) (v default : V) :
  Py.getitem d key = Some v -> Py.get d key default = v.
Proof. intros H. unfold Py.get. now rewrite H. Qed.

Lemma get_absent {V : Type} (d : Py.dict V) (key : string) (default : V) :
  Py.getitem d key = None -> Py.get d key default = default.
Proof. intros H. unfold Py.get. now rewrite H. Qed.

Lemma getitem_In {V : Type} (d : Py.dict V) (key : string) (v : V) :
  Py.getitem d key = Some v -> In (key, v) d.
Proof.
  induction d as [|[k u] d IH]; simpl; [discriminate|].
  destruct (String.eqb_spec k key) as [->|Hne].
  - intros [= ->]. now left.
  - intros H. right. now apply IH.
Qed.

Lemma getitem_None {V : Type} (d : Py.dict V) (key : string) :
  Py.getitem d key = None <-> ~ In key (Py.keys d).
Proof.
  induction d as [|[k u] d IH]; simpl.
  - intuition.
  - destruct (String.eqb_spec k key) as [->|Hne].
    + split; [discriminate | intros H; exfalso; apply H; now left].
    + rewrite IH. intuition.
Qed.

(* ===================================================================== *)
(** * keypress *)
(* ===================================================================== *)

Section Keypress.

Variable lower : string -> string.

(** The first loop of [keypress] splits the mapped names in two, keeping
    the order of the input in each part. *)
Lemma classify_fold (keys : list string) (ms rs : list string) :
  fold_left (classify lower) keys (ms, rs) =
  (ms ++ filter is_modifier (map (mapped lower) keys),
   rs ++ filter (fun k => negb (is_modifier k)) (map (mapped lower) keys)).
Proof.
  revert ms rs. induction keys as [|key keys IH]; intros ms rs; simpl.
  - now rewrite !app_nil_r.
  - destruct (is_modifier (mapped lower key)) eqn:E; simpl;
      rewrite IH; now rewrite <- ?app_assoc.
Qed.

(** [keypress] is its three loops, read as one sequence of driver calls. *)
Lemma keypress_issue (keys : list string) (drv : driver) (w : world) :
  keypress lower keys drv w =
  issue (map keyboard_down (filter is_modifier (map (mapped lower) keys))
         ++ map keyboard_press
              (filter (fun k => negb (is_modifier k)) (map (mapped lower) keys))
         ++ map keyboard_up (rev (filter is_modifier (map (mapped lower) keys))))
        drv w.
Proof.
  unfold keypress. rewrite classify_fold. simpl.
  rewrite !for_each_await.
  rewrite <- issue_app. apply bind_congr. intros _ w'.
  now rewrite <- issue_app.
Qed.

End Keypress.

(** C1.  For every list of key names, [keypress] maps each name through the
    key table and issues: a key-down for every modifier, in input order;
    then a press for every regular key, in input order; then a key-up for
    every modifier, in the reverse of the order they went down.  Against any
    driver the calls are issued in that order up to the first that raises,
    and against a driver that raises nowhere the log grows by exactly that
    sequence and [keypress] returns. *)
Theorem keypress_protocol
  (lower : string -> string) (keys : list string) (drv : driver) (w : world) :
  let names := map (mapped lower) keys in
  let modifiers := filter is_modifier names in
  let regulars := filter (fun k => negb (is_modifier k)) names in
  let protocol :=
    map keyboard_down modifiers
    ++ map keyboard_press regulars
    ++ map keyboard_up (rev modifiers) in
  keypress lower keys drv w = issue protocol drv w /\
  (never_fails drv -> keypress lower keys drv w = (log_all protocol w, Ok tt)).
Proof.
  intros names modifiers regulars protocol. split.
  - apply keypress_issue.
  - intros Hd. rewrite keypress_issue. now apply issue_never_fails.
Qed.

Lemma keypress_protocol_witness :
  never_fails steady /\
  keypress ascii_lower ["Shift"; "b"; "CTRL"; "Enter"; "alt"] steady fresh =
  ({| calls := [ keyboard_down "Shift";
                 keyboard_down "ControlOrMeta";
                 keyboard_down "Alt";
                 keyboard_press "b";
                 keyboard_press "Enter";
                 keyboard_up "Alt";
                 keyboard_up "ControlOrMeta";
                 keyboard_up "Shift" ];
      stdout := [] |}, Ok tt).
Proof.
  split.
  - exact never_fails_steady.
  - exact (proj2 (keypress_protocol ascii_lower
                    ["Shift"; "b"; "CTRL"; "Enter"; "alt"] steady fresh)
                 never_fails_steady).
Defined.

(** One key name: what [keypress] does with it depends on its mapped value
    alone. *)
Lemma keypress_one (lower : string -> string) (k : string) (drv : driver) (w : world) :
  keypress lower [k] drv w =
  issue (if is_modifier (mapped lower k)
         then [keyboard_down (mapped lower k); keyboard_up (mapped lower k)]
         else [keyboard_press (mapped lower k)]) drv w.
Proof.
  rewrite keypress_issue. simpl.
  destruct (is_modifier (mapped lower k)); reflexivity.
Qed.

(** A key bound in a dict that repeats no key is found with its value. *)
Lemma getitem_of_In {V : Type} (d : Py.dict V) (key : string) (v : V) :
  NoDup (Py.keys d) -> In (key, v) d -> Py.getitem d key = Some v.
Proof.
  induction d as [|[k u] d IH]; simpl; intros Hnd Hin; [contradiction|].
  inversion Hnd as [|? ? Hk Hnd']; subst.
  destruct Hin as [[= -> ->] | Hin].
  - now rewrite String.eqb_refl.
  - destruct (String.eqb_spec k key) as [->|_].
    + exfalso. apply Hk. change key with (fst (key, v)). now apply in_map.
    + now apply IH.
Qed.

(** C6.  For a single key name [k]: when the table binds the lowered name
    to [v], [keypress [k]] presses and releases [v] (a modifier goes down
    and up, any other identifier is pressed); when the lowered name is no
    key of the table, the same is done with [k] itself, as it was given and
    not lowered.  Against a driver that raises nowhere the log grows by
    exactly those calls.  What the table binds is read off the table, entry
    by entry, not through the lookup [keypress] runs. *)
Theorem keypress_single
  (lower : string -> string) (k : string) (drv : driver) (w : world) :
  (forall v,
      In (lower k, v) CUA_KEY_TO_PLAYWRIGHT_KEY ->
      keypress lower [k] drv w =
        issue (if is_modifier v
               then [keyboard_down v; keyboard_up v]
               else [keyboard_press v]) drv w
      /\ (never_fails drv ->
          keypress lower [k] drv w =
          ({| calls := calls w ++ (if is_modifier v
                                   then [keyboard_down v; keyboard_up v]
                                   else [keyboard_press v]);
              stdout := stdout w |}, Ok tt)))
  /\
  (~ In (lower k) (Py.keys CUA_KEY_TO_PLAYWRIGHT_KEY) ->
   keypress lower [k] drv w =
     issue (if is_modifier k
            then [keyboard_down k; keyboard_up k]
            else [keyboard_press k]) drv w
   /\ (never_fails drv ->
       keypress lower [k] drv w =
       ({| calls := calls w ++ (if is_modifier k
                                then [keyboard_down k; keyboard_up k]
                                else [keyboard_press k]);
           stdout := stdout w |}, Ok tt))).
Proof.
  split.
  - intros v Hv.
    pose proof (getitem_of_In _ _ _ CUA_keys_NoDup Hv) as Hget.
    rewrite keypress_one. unfold mapped. rewrite (get_present _ _ v k Hget).
    split; [reflexivity|].
    intros Hd. now rewrite (issue_never_fails drv _ w Hd).
  - intros Hk. apply getitem_None in Hk.
    rewrite keypress_one. unfold mapped. rewrite (get_absent _ _ k Hk).
    split; [reflexivity|].
    intros Hd. now rewrite (issue_never_fails drv _ w Hd).
Qed.

Lemma keypress_single_witness :
  (In ("esc", "Escape") CUA_KEY_TO_PLAYWRIGHT_KEY
   /\ keypress ascii_lower ["ESC"] steady fresh =
        ({| calls := [keyboard_press "Escape"]; stdout := [] |}, Ok tt))
  /\ (In ("cmd", "Meta") CUA_KEY_TO_PLAYWRIGHT_KEY
      /\ keypress ascii_lower ["Cmd"] steady fresh =
           ({| calls := [keyboard_down "Meta"; keyboard_up "Meta"];
               stdout := [] |}, Ok tt))
  /\ (~ In "f5" (Py.keys CUA_KEY_TO_PLAYWRIGHT_KEY)
      /\ keypress ascii_lower ["F5"] steady fresh =
           ({| calls := [keyboard_press "F5"]; stdout := [] |}, Ok tt)).
Proof.
  assert (Hesc : In ("esc", "Escape") CUA_KEY_TO_PLAYWRIGHT_KEY)
    by (simpl; tauto).
  assert (Hcmd : In ("cmd", "Meta") CUA_KEY_TO_PLAYWRIGHT_KEY)
    by (simpl; tauto).
  assert (Hf5 : ~ In "f5" (Py.keys CUA_KEY_TO_PLAYWRIGHT_KEY))
    by (simpl; intuition discriminate).
  refine (conj (conj Hesc _) (conj (conj Hcmd _) (conj Hf5 _))).
  - exact (proj2 (proj1 (keypress_single ascii_lower "ESC" steady fresh)
                        "Escape" Hesc) never_fails_steady).
  - exact (proj2 (proj1 (keypress_single ascii_lower "Cmd" steady fresh)
                        "Meta" Hcmd) never_fails_steady).
  - exact (proj2 (proj2 (keypress_single ascii_lower "F5" steady fresh) Hf5)
                 never_fails_steady).
Defined.

(** C8.  [keypress] of the empty list leaves the world as it found it: no
    key-down, press or key-up reaches the page, and the call returns. *)
Theorem keypress_empty (lower : string -> string) (drv : driver) (w : world) :
  keypress lower [] drv w = (w, Ok tt).
Proof. reflexivity. Qed.

(** C9.  The modifier test reads the mapped value, not the name.  With a
    lowering under which "ctrl" and "control" are already lower case and
    "Control" lowers to "control": "ctrl" is a key of the table and its
    value is held down and released; "control" is no key of the table, is
    passed on as it is, is none of the five modifier identifiers and so is
    pressed as a regular key; "Control" is no key of the table either, is
    passed on as it is, and is held down and released. *)
Theorem keypress_modifier_case
  (lower : string -> string) (drv : driver) (w : world) :
  lower "ctrl" = "ctrl" ->
  lower "control" = "control" ->
  lower "Control" = "control" ->
  keypress lower ["ctrl"] drv w =
    issue [keyboard_down "ControlOrMeta"; keyboard_up "ControlOrMeta"] drv w
  /\ Py.getitem CUA_KEY_TO_PLAYWRIGHT_KEY (lower "control") = None
  /\ keypress lower ["control"] drv w = issue [keyboard_press "control"] drv w
  /\ keypress lower ["Control"] drv w =
       issue [keyboard_down "Control"; keyboard_up "Control"] drv w.
Proof.
  intros H1 H2 H3. repeat split.
  - rewrite keypress_one. unfold mapped. now rewrite H1.
  - now rewrite H2.
  - rewrite keypress_one. unfold mapped. now rewrite H2.
  - rewrite keypress_one. unfold mapped. now rewrite H3.
Qed.

Lemma keypress_modifier_case_witness :
  keypress ascii_lower ["ctrl"] steady fresh =
    ({| calls := [keyboard_down "ControlOrMeta"; keyboard_up "ControlOrMeta"];
        stdout := [] |}, Ok tt)
  /\ keypress ascii_lower ["control"] steady fresh =
       ({| calls := [keyboard_press "control"]; stdout := [] |}, Ok tt).
Proof.
  pose proof (keypress_modifier_case ascii_lower steady fresh
                eq_refl eq_refl eq_refl) as [H1 [_ [H2 _]]].
  split; [exact H1 | exact H2].
Defined.

(* ===================================================================== *)
(** * click *)
(* ===================================================================== *)

(** The two-entry [button_mapping] of [click], read with the default
    "left": "right" stays, everything else is "left". *)
Lemma button_type_spec (button : string) :
  Py.get [("left", "left"); ("right", "right")] button "left" =
  if button =? "right" then "right" else "left".
Proof.
  unfold Py.get. rewrite !getitem_cons, getitem_nil.
  rewrite (String.eqb_sym "right" button).
  destruct (String.eqb_spec "left" button) as [<-|Hl]; [reflexivity|].
  destruct (button =? "right"); reflexivity.
Qed.

Lemma click_other (x y : Z) (button : string) :
  button <> "back" -> button <> "forward" -> button <> "wheel" ->
  click x y button =
  await (mouse_click x y (if button =? "right" then "right" else "left")).
Proof.
  intros Hb Hf Hw. unfold click.
  apply String.eqb_neq in Hb, Hf, Hw. rewrite Hb, Hf, Hw.
  cbv zeta. now rewrite button_type_spec.
Qed.

(** C3.  [click] with button "back" is [back()] and with "forward" is
    [forward()]: one history call and no mouse call.  With "wheel" it is one
    wheel call whose deltas are the coordinates.  With any other button
    name it is one mouse click at (x, y), with button "right" for "right"
    and "left" for every other name. *)
Theorem click_dispatch (x y : Z) (drv : driver) (w : world) :
  (click x y "back" = back
   /\ fst (click x y "back" drv w) = log page_go_back w)
  /\ (click x y "forward" = forward
      /\ fst (click x y "forward" drv w) = log page_go_forward w)
  /\ (click x y "wheel" = await (mouse_wheel x y)
      /\ fst (click x y "wheel" drv w) = log (mouse_wheel x y) w)
  /\ (forall button,
         button <> "back" -> button <> "forward" -> button <> "wheel" ->
         click x y button =
           await (mouse_click x y (if button =? "right" then "right" else "left"))
         /\ fst (click x y button drv w) =
              log (mouse_click x y (if button =? "right" then "right" else "left")) w).
Proof.
  repeat split.
  - apply await_calls.
  - apply await_calls.
  - apply await_calls.
  - now apply click_other.
  - rewrite click_other by assumption. apply await_calls.
Qed.

Lemma click_dispatch_witness :
  "middle" <> "back" /\ "middle" <> "forward" /\ "middle" <> "wheel"
  /\ click 100 200 "middle" = await (mouse_click 100 200 "left")
  /\ fst (click 100 200 "middle" steady fresh) =
       {| calls := [mouse_click 100 200 "left"]; stdout := [] |}.
Proof.
  assert (Hb : "middle" <> "back") by discriminate.
  assert (Hf : "middle" <> "forward") by discriminate.
  assert (Hw : "middle" <> "wheel") by discriminate.
  refine (conj Hb (conj Hf (conj Hw _))).
  exact (proj2 (proj2 (proj2 (click_dispatch 100 200 steady fresh)))
               "middle" Hb Hf Hw).
Defined.

(** C10.  With button "back" or "forward", [click] is the same computation
    whatever the coordinates: against every driver and from every world the
    two calls log the same driver calls and end the same way. *)
Theorem click_history_ignores_point (x1 y1 x2 y2 : Z) (button : string) :
  button = "back" \/ button = "forward" ->
  click x1 y1 button = click x2 y2 button.
Proof.
  intros [-> | ->]; reflexivity.
Qed.

Lemma click_history_ignores_point_witness :
  click 0 0 "back" = click 640 480 "back"
  /\ click (-5) 7 "forward" = click 1023 767 "forward".
Proof.
  split.
  - exact (click_history_ignores_point 0 0 640 480 "back" (or_introl eq_refl)).
  - exact (click_history_ignores_point (-5) 7 1023 767 "forward" (or_intror eq_refl)).
Defined.

(* ===================================================================== *)
(** * drag *)
(* ===================================================================== *)

Lemma move_to_xy (p : Py.dict Z) (x y : Z) :
  has_xy p x y -> move_to p = await (mouse_move x y).
Proof.
  intros [Hx Hy]. unfold move_to, subscript. now rewrite Hx, Hy.
Qed.

(** The loop over [path[1:]] issues one move per point. *)
Lemma for_each_move_to (ps : list (Py.dict Z)) (cs : list (Z * Z)) :
  Forall2 (fun p c => has_xy p (fst c) (snd c)) ps cs ->
  for_each ps move_to = issue (map (fun c => mouse_move (fst c) (snd c)) cs).
Proof.
  induction 1 as [|p c ps cs Hp _ IH]; simpl.
  - reflexivity.
  - unfold issue in *. simpl. now rewrite (move_to_xy p _ _ Hp), IH.
Qed.

Lemma drag_issue (p0 : Py.dict Z) (x0 y0 : Z) (ps : list (Py.dict Z))
  (cs : list (Z * Z)) (drv : driver) (w : world) :
  has_xy p0 x0 y0 ->
  Forall2 (fun p c => has_xy p (fst c) (snd c)) ps cs ->
  drag (p0 :: ps) drv w =
  issue (mouse_move x0 y0 :: mouse_down
         :: map (fun c => mouse_move (fst c) (snd c)) cs ++ [mouse_up]) drv w.
Proof.
  intros H0 Hps. unfold drag.
  rewrite (move_to_xy p0 x0 y0 H0), (for_each_move_to ps cs Hps).
  rewrite !issue_cons. apply bind_congr. intros _ w1.
  apply bind_congr. intros _ w2.
  rewrite <- issue_app. apply bind_congr. intros _ w3.
  now rewrite issue_one.
Qed.

(** C4.  [drag []] touches nothing and returns.  [drag [p]] moves to [p],
    presses and releases, with no move in between.  [drag (p0 :: ps)] moves
    to [p0], presses, moves to each point of [ps] in order, and releases.
    The points are dicts that hold their coordinates under "x" and "y". *)
Theorem drag_protocol (drv : driver) (w : world) :
  drag [] drv w = (w, Ok tt)
  /\ (forall p x y,
         has_xy p x y ->
         drag [p] drv w = issue [mouse_move x y; mouse_down; mouse_up] drv w)
  /\ (forall p0 x0 y0 ps cs,
         has_xy p0 x0 y0 ->
         Forall2 (fun p c => has_xy p (fst c) (snd c)) ps cs ->
         drag (p0 :: ps) drv w =
         issue (mouse_move x0 y0 :: mouse_down
                :: map (fun c => mouse_move (fst c) (snd c)) cs ++ [mouse_up])
               drv w).
Proof.
  split; [reflexivity | split].
  - intros p x y Hp.
    exact (drag_issue p x y [] [] drv w Hp (Forall2_nil _)).
  - intros p0 x0 y0 ps cs H0 Hps. now apply drag_issue.
Qed.

Lemma has_xy_point (x y : Z) : has_xy (point x y) x y.
Proof. split; reflexivity. Qed.

Lemma drag_protocol_witness :
  has_xy (point 10 20) 10 20
  /\ drag [point 10 20] steady fresh =
       ({| calls := [mouse_move 10 20; mouse_down; mouse_up]; stdout := [] |}, Ok tt)
  /\ drag [point 10 20; point 30 40; point 50 60] steady fresh =
       ({| calls := [mouse_move 10 20; mouse_down; mouse_move 30 40;
                     mouse_move 50 60; mouse_up];
           stdout := [] |}, Ok tt).
Proof.
  assert (Hps : Forall2 (fun p c => has_xy p (fst c) (snd c))
                   [point 30 40; point 50 60] [(30, 40); (50, 60)]%Z)
    by (repeat constructor).
  refine (conj (has_xy_point 10 20) (conj _ _)).
  - exact (proj1 (proj2 (drag_protocol steady fresh))
                 (point 10 20) 10%Z 20%Z (has_xy_point 10 20)).
  - exact (proj2 (proj2 (drag_protocol steady fresh))
                 (point 10 20) 10%Z 20%Z [point 30 40; point 50 60]
                 [(30, 40); (50, 60)]%Z (has_xy_point 10 20) Hps).
Defined.

(* ===================================================================== *)
(** * goto *)
(* ===================================================================== *)

Lemma goto_served (url : string) (drv : driver) (w : world) :
  fails drv (calls w) (page_goto url) = None ->
  goto url drv w = (log (page_goto url) w, Ok tt).
Proof.
  intros H. unfold goto, try_except_Exception. now rewrite (await_served _ _ _ H).
Qed.

Lemma goto_caught (url : string) (drv : driver) (w : world) (e : Py.exc) :
  fails drv (calls w) (page_goto url) = Some e ->
  Py.isinstance_Exception e = true ->
  goto url drv w =
  (echo ("Error navigating to " ++ url ++ ": " ++ Py.str e)%string
        (log (page_goto url) w), Ok tt).
Proof.
  intros H He. unfold goto, try_except_Exception.
  rewrite (await_raises _ _ _ _ H), He. reflexivity.
Qed.

(** What [except Exception] does not catch goes on to the caller. *)
Lemma goto_passes (url : string) (drv : driver) (w : world) (e : Py.exc) :
  fails drv (calls w) (page_goto url) = Some e ->
  Py.isinstance_Exception e = false ->
  goto url drv w = (log (page_goto url) w, Raise e).
Proof.
  intros H He. unfold goto, try_except_Exception.
  rewrite (await_raises _ _ _ _ H), He. reflexivity.
Qed.

(** C5.  Whatever the URL, when the navigation either succeeds or raises an
    instance of [Exception] (a navigation error is one), [goto] returns
    [None] to its caller.  The navigation is attempted once; an error is
    printed as one line and dropped, and without an error nothing is
    printed.  Whatever the caller awaits next runs as it would have from the
    world [goto] left, so an action the driver serves still succeeds. *)
Theorem goto_swallows (url : string) (drv : driver) (w : world) :
  (forall e, fails drv (calls w) (page_goto url) = Some e ->
             Py.isinstance_Exception e = true) ->
  snd (goto url drv w) = Ok tt
  /\ calls (fst (goto url drv w)) = calls w ++ [page_goto url]
  /\ (forall e, fails drv (calls w) (page_goto url) = Some e ->
        stdout (fst (goto url drv w)) =
        stdout w ++ [("Error navigating to " ++ url ++ ": " ++ Py.str e)%string])
  /\ (fails drv (calls w) (page_goto url) = None ->
        stdout (fst (goto url drv w)) = stdout w)
  /\ (forall (A : Type) (next : io A),
        (goto url ;; next) drv w = next drv (fst (goto url drv w))).
Proof.
  intros Hexc.
  destruct (fails drv (calls w) (page_goto url)) as [e|] eqn:E.
  - rewrite (goto_caught url drv w e E (Hexc e eq_refl)).
    repeat split; try reflexivity.
    + intros e' [= <-]. reflexivity.
    + discriminate.
    + intros A next. rewrite bind_run.
      now rewrite (goto_caught url drv w e E (Hexc e eq_refl)).
  - rewrite (goto_served url drv w E).
    repeat split; try reflexivity.
    + discriminate.
    + intros A next. rewrite bind_run. now rewrite (goto_served url drv w E).
Qed.

Lemma offline_raises_Exception (url : string) (h : list call) (e : Py.exc) :
  fails offline h (page_goto url) = Some e -> Py.isinstance_Exception e = true.
Proof.
  simpl. destruct (url =? "https://google.com"); [discriminate|].
  now intros [= <-].
Qed.

Lemma goto_swallows_witness :
  snd (goto "https://example.test" offline fresh) = Ok tt
  /\ stdout (fst (goto "https://example.test" offline fresh)) =
       ["Error navigating to https://example.test: net::ERR_NAME_NOT_RESOLVED"]
  /\ (goto "https://example.test" ;; screenshot) offline fresh =
       screenshot offline (fst (goto "https://example.test" offline fresh)).
Proof.
  pose proof (goto_swallows "https://example.test" offline fresh
                (offline_raises_Exception "https://example.test" [])) as
    [Hret [_ [Hout [_ Hnext]]]].
  refine (conj Hret (conj _ (Hnext _ screenshot))).
  exact (Hout net_error eq_refl).
Defined.

(* ===================================================================== *)
(** * __aexit__ *)
(* ===================================================================== *)

Lemma aexit_issue (self : HeadlessChromeBrowser) (drv : driver) (w : world) :
  __aexit__ self drv w =
  issue ((if truthy (_browser self) then [browser_close] else [])
         ++ (if truthy (_playwright self) then [playwright_stop] else []))
        drv w.
Proof.
  unfold __aexit__. rewrite <- issue_app.
  destruct (truthy (_browser self)), (truthy (_playwright self));
    rewrite !bind_run, ?issue_one.
  - destruct (await browser_close drv w) as [w' [[]|e]];
      [now rewrite issue_one | reflexivity].
  - destruct (await browser_close drv w) as [w' [[]|e]]; reflexivity.
  - change (issue [] drv w) with (w, Ok tt). change (ret tt drv w) with (w, Ok tt).
    cbv beta iota. now rewrite issue_one.
  - reflexivity.
Qed.

(** C2 as the code has it.  The two release steps run one after the other,
    each at most once and only for a handle that exists: close the browser,
    then stop the driver.  The second step waits for the first to return:
    when closing the browser raises, that exception goes to the caller and
    the driver is not stopped.  When closing returns, stopping the driver is
    attempted. *)
Theorem aexit_in_sequence (self : HeadlessChromeBrowser) (drv : driver) (w : world) :
  __aexit__ self drv w =
    issue ((if truthy (_browser self) then [browser_close] else [])
           ++ (if truthy (_playwright self) then [playwright_stop] else []))
          drv w
  /\ (forall e,
         truthy (_browser self) = true ->
         fails drv (calls w) browser_close = Some e ->
         __aexit__ self drv w = (log browser_close w, Raise e))
  /\ (truthy (_browser self) = true ->
      truthy (_playwright self) = true ->
      fails drv (calls w) browser_close = None ->
      fst (__aexit__ self drv w) = log_all [browser_close; playwright_stop] w).
Proof.
  split; [apply aexit_issue | split].
  - intros e Hb He. unfold __aexit__. rewrite Hb, bind_run.
    now rewrite (await_raises _ _ _ _ He).
  - intros Hb Hp He. unfold __aexit__. rewrite Hb, Hp, bind_run.
    rewrite (await_served _ _ _ He), await_calls.
    now rewrite <- (log_all_nil (log playwright_stop _)), !log_all_cons.
Qed.

Lemma aexit_in_sequence_witness :
  __aexit__ entered close_fails fresh =
    ({| calls := [browser_close]; stdout := [] |}, Raise close_error)
  /\ fst (__aexit__ entered steady fresh) =
       {| calls := [browser_close; playwright_stop]; stdout := [] |}.
Proof.
  split.
  - exact (proj1 (proj2 (aexit_in_sequence entered close_fails fresh))
                 close_error eq_refl eq_refl).
  - exact (proj2 (proj2 (aexit_in_sequence entered steady fresh))
                 eq_refl eq_refl eq_refl).
Defined.

(** C2 as the spec has it fails: on an entered session whose browser raises
    on close, the driver is never stopped. *)
Lemma aexit_stop_skipped_when_close_raises :
  truthy (_playwright entered) = true
  /\ __aexit__ entered close_fails fresh =
       ({| calls := [browser_close]; stdout := [] |}, Raise close_error)
  /\ ~ In playwright_stop (calls (fst (__aexit__ entered close_fails fresh))).
Proof.
  split; [reflexivity | split; [reflexivity |]].
  simpl. intros [H | []]. discriminate.
Qed.

(* ===================================================================== *)
(** * base64 *)
(* ===================================================================== *)

(** The vectors of RFC 4648, section 10. *)
Example b64encode_rfc4648 :
  map (fun s => Py.b64encode (list_byte_of_string s))
      [""; "f"; "fo"; "foo"; "foob"; "fooba"; "foobar"] =
  [""; "Zg=="; "Zm8="; "Zm9v"; "Zm9vYg=="; "Zm9vYmE="; "Zm9vYmFy"].
Proof. reflexivity. Qed.

Ltac divmod := zify; Z.to_euclidean_division_equations; lia.

(** A property checked on 0 .. 63 holds below 64. *)
Lemma below_64 (P : N -> bool) :
  forallb P (map N.of_nat (seq 0 64)) = true ->
  forall n, (n < 64)%N -> P n = true.
Proof.
  intros H n Hn. rewrite forallb_forall in H. apply H.
  apply in_map_iff. exists (N.to_nat n). split.
  - apply N2Nat.id.
  - apply in_seq. lia.
Qed.

Lemma b64_value_char (n : N) :
  (n < 64)%N -> Py.b64_value (Py.b64_char n) = Some n.
Proof.
  intros Hn.
  pose proof (below_64
    (fun k => match Py.b64_value (Py.b64_char k) with
              | Some m => N.eqb m k
              | None => false
              end) eq_refl n Hn) as H.
  cbv beta in H. destruct (Py.b64_value (Py.b64_char n)) as [m|]; [|discriminate].
  apply N.eqb_eq in H. now subst.
Qed.

(** No character of a 6-bit value is the padding character. *)
Lemma b64_char_not_pad (n : N) :
  (n < 64)%N -> Ascii.eqb (Py.b64_char n) "=" = false.
Proof.
  intros Hn.
  pose proof (below_64 (fun k => negb (Ascii.eqb (Py.b64_char k) "=")) eq_refl n Hn) as H.
  now apply negb_true_iff in H.
Qed.

Lemma byte_of_to_N (a : byte) : Py.byte_of (Byte.to_N a) = a.
Proof. unfold Py.byte_of. now rewrite Byte.of_to_N. Qed.

Lemma to_N_lt (a : byte) : (Byte.to_N a < 256)%N.
Proof. pose proof (Byte.to_N_bounded a). lia. Qed.

(** Splitting a group in four and joining the parts gives the group. *)
Lemma join24_sextets (a b c : byte) :
  let '(s0, s1, s2, s3) := Py.sextets (Py.group24 a b c) in
  (s0 < 64 /\ s1 < 64 /\ s2 < 64 /\ s3 < 64)%N
  /\ Py.join24 s0 s1 s2 s3 = Py.group24 a b c.
Proof.
  unfold Py.sextets, Py.join24, Py.group24.
  pose proof (to_N_lt a). pose proof (to_N_lt b). pose proof (to_N_lt c).
  repeat apply conj; divmod.
Qed.

Lemma group24_bytes (a b c : byte) :
  Py.byte_of (Py.group24 a b c / 65536) = a
  /\ Py.byte_of ((Py.group24 a b c / 256) mod 256) = b
  /\ Py.byte_of (Py.group24 a b c mod 256) = c.
Proof.
  unfold Py.group24.
  pose proof (to_N_lt a). pose proof (to_N_lt b). pose proof (to_N_lt c).
  replace ((Byte.to_N a * 65536 + Byte.to_N b * 256 + Byte.to_N c) / 65536)%N
    with (Byte.to_N a) by divmod.
  replace (((Byte.to_N a * 65536 + Byte.to_N b * 256 + Byte.to_N c) / 256) mod 256)%N
    with (Byte.to_N b) by divmod.
  replace ((Byte.to_N a * 65536 + Byte.to_N b * 256 + Byte.to_N c) mod 256)%N
    with (Byte.to_N c) by divmod.
  now rewrite !byte_of_to_N.
Qed.

(** Lists three elements at a time. *)
Lemma list_ind3 {A : Type} (P : list A -> Prop) :
  P [] ->
  (forall a, P [a]) ->
  (forall a b, P [a; b]) ->
  (forall a b c rest, P rest -> P (a :: b :: c :: rest)) ->
  forall l, P l.
Proof.
  intros H0 H1 H2 H3 l.
  assert (H : P l /\ (forall a, P (a :: l)) /\ (forall a b, P (a :: b :: l))).
  { induction l as [|x l [IH0 [IH1 IH2]]].
    - repeat split; auto.
    - repeat split; auto. }
  apply H.
Qed.

Lemma b64decode_group (c0 c1 c2 c3 : ascii) (rest : string) :
  Py.b64decode (String c0 (String c1 (String c2 (String c3 rest)))) =
  match Py.b64_value c0, Py.b64_value c1 with
  | Some v0, Some v1 =>
      if Ascii.eqb c2 "=" then
        match Ascii.eqb c3 "=", rest with
        | true, EmptyString => Some [Py.byte_of (Py.join24 v0 v1 0 0 / 65536)]
        | _, _ => None
        end
      else
        match Py.b64_value c2 with
        | None => None
        | Some v2 =>
            if Ascii.eqb c3 "=" then
              match rest with
              | EmptyString =>
                  let n := Py.join24 v0 v1 v2 0 in
                  Some [Py.byte_of (n / 65536); Py.byte_of ((n / 256) mod 256)]
              | String _ _ => None
              end
            else
              match Py.b64_value c3, Py.b64decode rest with
              | Some v3, Some tl =>
                  let n := Py.join24 v0 v1 v2 v3 in
                  Some (Py.byte_of (n / 65536) :: Py.byte_of ((n / 256) mod 256)
                        :: Py.byte_of (n mod 256) :: tl)
              | _, _ => None
              end
        end
  | _, _ => None
  end.
Proof. reflexivity. Qed.

Lemma b64encode_group (a b c : byte) (rest : list byte) :
  Py.b64encode (a :: b :: c :: rest) =
  let '(s0, s1, s2, s3) := Py.sextets (Py.group24 a b c) in
  String (Py.b64_char s0) (String (Py.b64_char s1)
    (String (Py.b64_char s2) (String (Py.b64_char s3) (Py.b64encode rest)))).
Proof. reflexivity. Qed.

Lemma b64decode_one (a : byte) : Py.b64decode (Py.b64encode [a]) = Some [a].
Proof.
  change (Py.b64encode [a]) with
    (let '(s0, s1, _, _) := Py.sextets (Py.group24 a x00 x00) in
     String (Py.b64_char s0) (String (Py.b64_char s1) "==")).
  pose proof (join24_sextets a x00 x00) as H.
  destruct (Py.sextets (Py.group24 a x00 x00)) as [[[s0 s1] s2] s3].
  destruct H as [[H0 [H1 [H2 H3]]] Hj].
  rewrite b64decode_group, !b64_value_char by assumption.
  change (Ascii.eqb "=" "=") with true. cbv iota.
  replace (Py.join24 s0 s1 0 0 / 65536)%N with (Byte.to_N a).
  - now rewrite byte_of_to_N.
  - pose proof (to_N_lt a). unfold Py.join24, Py.group24 in *.
    change (Byte.to_N x00) with 0%N in Hj. divmod.
Qed.

Lemma b64decode_two (a b : byte) : Py.b64decode (Py.b64encode [a; b]) = Some [a; b].
Proof.
  change (Py.b64encode [a; b]) with
    (let '(s0, s1, s2, _) := Py.sextets (Py.group24 a b x00) in
     String (Py.b64_char s0) (String (Py.b64_char s1) (String (Py.b64_char s2) "="))).
  pose proof (join24_sextets a b x00) as H.
  destruct (Py.sextets (Py.group24 a b x00)) as [[[s0 s1] s2] s3].
  destruct H as [[H0 [H1 [H2 H3]]] Hj].
  rewrite b64decode_group, !b64_value_char, b64_char_not_pad by assumption.
  change (Ascii.eqb "=" "=") with true. cbv iota zeta.
  pose proof (to_N_lt a). pose proof (to_N_lt b).
  unfold Py.join24, Py.group24 in *. change (Byte.to_N x00) with 0%N in Hj.
  replace ((((s0 * 64 + s1) * 64 + s2) * 64 + 0) / 65536)%N with (Byte.to_N a) by divmod.
  replace (((((s0 * 64 + s1) * 64 + s2) * 64 + 0) / 256) mod 256)%N
    with (Byte.to_N b) by divmod.
  now rewrite !byte_of_to_N.
Qed.

(** Decoding what [b64encode] wrote gives the bytes back: the text is the
    base64 encoding of the bytes, and of no other bytes. *)
Lemma b64decode_b64encode (s : list byte) :
  Py.b64decode (Py.b64encode s) = Some s.
Proof.
  induction s as [| a | a b | a b c rest IH] using list_ind3.
  - reflexivity.
  - apply b64decode_one.
  - apply b64decode_two.
  - rewrite b64encode_group.
    pose proof (join24_sextets a b c) as H.
    destruct (Py.sextets (Py.group24 a b c)) as [[[s0 s1] s2] s3].
    destruct H as [[H0 [H1 [H2 H3]]] Hj].
    rewrite b64decode_group, !b64_value_char, !b64_char_not_pad, IH by assumption.
    cbv zeta. rewrite Hj.
    destruct (group24_bytes a b c) as [-> [-> ->]]. reflexivity.
Qed.

Lemma b64encode_injective (s t : list byte) :
  Py.b64encode s = Py.b64encode t -> s = t.
Proof.
  intros H. apply (f_equal Py.b64decode) in H.
  rewrite !b64decode_b64encode in H. now injection H.
Qed.

(* ===================================================================== *)
(** * screenshot *)
(* ===================================================================== *)

(** The two last characters of the alphabet, which the vectors above do
    not reach, and the padding of one and of two bytes. *)
Example b64encode_plus_slash :
  map Py.b64encode [[xfb; xff; xbf]; [xff; xe0]; [xf8]] = ["+/+/"; "/+A="; "+A=="].
Proof. reflexivity. Qed.

(** C7.  [screenshot] makes one driver call, a screenshot of the page with
    [full_page] false, so of the viewport only, and prints nothing.  When
    the driver returns the bytes, [screenshot] returns their base64 text,
    the string that decodes to exactly those bytes; an error of the driver
    goes to the caller. *)
Theorem screenshot_viewport_base64 (drv : driver) (w : world) :
  calls (fst (screenshot drv w)) = calls w ++ [page_screenshot false]
  /\ stdout (fst (screenshot drv w)) = stdout w
  /\ (fails drv (calls w) (page_screenshot false) = None ->
      snd (screenshot drv w) = Ok (Py.b64encode (png drv (calls w)))
      /\ Py.b64decode (Py.b64encode (png drv (calls w))) = Some (png drv (calls w)))
  /\ (forall e, fails drv (calls w) (page_screenshot false) = Some e ->
                snd (screenshot drv w) = Raise e).
Proof.
  unfold screenshot. rewrite bind_run. unfold await_bytes.
  destruct (fails drv (calls w) (page_screenshot false)) as [e|]; simpl.
  - split; [reflexivity | split; [reflexivity | split]].
    + discriminate.
    + now intros e' [= <-].
  - split; [reflexivity | split; [reflexivity | split]].
    + intros _. split; [reflexivity | apply b64decode_b64encode].
    + discriminate.
Qed.

Lemma screenshot_viewport_base64_witness :
  fails camera (calls fresh) (page_screenshot false) = None
  /\ calls (fst (screenshot camera fresh)) = [page_screenshot false]
  /\ stdout (fst (screenshot camera fresh)) = []
  /\ snd (screenshot camera fresh) = Ok "iVBORw0KGgoA+/+/"
  /\ Py.b64decode "iVBORw0KGgoA+/+/" =
       Some [x89; x50; x4e; x47; x0d; x0a; x1a; x0a; x00; xfb; xff; xbf].
Proof.
  pose proof (screenshot_viewport_base64 camera fresh) as [Hcalls [Hout [Hok _]]].
  refine (conj eq_refl (conj Hcalls (conj Hout (Hok eq_refl)))).
Defined.

(* ===================================================================== *)
(** * Scenarios *)
(* ===================================================================== *)

(** [keypress(["ctrl", "a"])]: down, press, up. *)
Example keypress_ctrl_a :
  keypress ascii_lower ["ctrl"; "a"] steady fresh =
  ({| calls := [ keyboard_down "ControlOrMeta";
                 keyboard_press "a";
                 keyboard_up "ControlOrMeta" ];
      stdout := [] |}, Ok tt).
Proof. reflexivity. Qed.

(** A key-down that raises ends [keypress] there: the modifiers already
    down stay down. *)
Example keypress_interrupted :
  let drv := {| fails := fun _ c =>
                  match c with
                  | keyboard_down "Alt" => Some close_error
                  | _ => None
                  end;
                png := fun _ => [] |} in
  keypress ascii_lower ["shift"; "alt"; "x"] drv fresh =
  ({| calls := [keyboard_down "Shift"; keyboard_down "Alt"]; stdout := [] |},
   Raise close_error).
Proof. reflexivity. Qed.

(** [click(100, 200, button="left")]: one left click and no navigation. *)
Example click_left :
  click 100 200 "left" steady fresh =
  ({| calls := [mouse_click 100 200 "left"]; stdout := [] |}, Ok tt).
Proof. reflexivity. Qed.

(** A point without "x" raises [KeyError] before the pointer is touched. *)
Example drag_without_x :
  drag [[("y", 5%Z)]] steady fresh = (fresh, Raise (Py.KeyError "x")).
Proof. reflexivity. Qed.

(** A cancellation during the navigation is no [Exception], and [goto]
    lets it through. *)
Example goto_cancelled :
  goto "https://example.test" cancelled fresh =
  ({| calls := [page_goto "https://example.test"]; stdout := [] |},
   Raise (Py.mk_exc false "")).
Proof. reflexivity. Qed.

(** A session in which a navigation fails: the error is printed, the
    screenshot that follows is returned, and on the way out the browser is
    closed once and the driver stopped once. *)
Example session_with_failed_goto :
  async_with (fun _ => goto "https://example.test" ;; screenshot) offline fresh =
  ({| calls := [ playwright_start;
                 chromium_launch true true
                   [ "--window-size=1024,768";
                     "--disable-extensions";
                     "--disable-file-system" ];
                 browser_new_page;
                 page_set_viewport_size 1024 768;
                 page_goto "https://google.com";
                 page_goto "https://example.test";
                 page_screenshot false;
                 browser_close;
                 playwright_stop ];
      stdout :=
        ["Error navigating to https://example.test: net::ERR_NAME_NOT_RESOLVED"] |},
   Ok "iVBORw0KGgo=").
Proof. reflexivity. Qed.

(** A session whose browser does not close: the driver is left running and
    the caller gets the error of the close. *)
Example session_with_failed_close :
  async_with (fun _ => click 1 2 "left") close_fails fresh =
  ({| calls := [ playwright_start;
                 chromium_launch true true
                   [ "--window-size=1024,768";
                     "--disable-extensions";
                     "--disable-file-system" ];
                 browser_new_page;
                 page_set_viewport_size 1024 768;
                 page_goto "https://google.com";
                 mouse_click 1 2 "left";
                 browser_close ];
      stdout := [] |},
   Raise close_error).
Proof. reflexivity. Qed.

(* ===================================================================== *)
(** * Where a sequence of calls stops *)
(* ===================================================================== *)

Lemma log_one (c : call) (w : world) : log_all [c] w = log c w.
Proof. reflexivity. Qed.

(** A sequence of calls runs to its end, or to the first call that raises
    and no further. *)
Lemma issue_outcome (cs : list call) (drv : driver) (w : world) :
  issue cs drv w =
  match first_failure drv (calls w) cs with
  | None => (log_all cs w, Ok tt)
  | Some (n, e) => (log_all (firstn (S n) cs) w, Raise e)
  end.
Proof.
  revert w. induction cs as [|c cs IH]; intros w.
  - simpl. now rewrite log_all_nil.
  - rewrite issue_cons, bind_run. unfold await. simpl first_failure.
    destruct (fails drv (calls w) c) as [e|].
    + reflexivity.
    + rewrite IH. change (calls (log c w)) with (calls w ++ [c]).
      destruct (first_failure drv (calls w ++ [c]) cs) as [[n e]|].
      * now rewrite log_all_cons.
      * now rewrite log_all_cons.
Qed.

Lemma first_failure_lt (drv : driver) (h cs : list call) (n : nat) (e : Py.exc) :
  first_failure drv h cs = Some (n, e) -> (n < List.length cs)%nat.
Proof.
  revert h n e. induction cs as [|c cs IH]; intros h n e; simpl.
  - discriminate.
  - destruct (fails drv h c).
    + intros [= <- _]. lia.
    + destruct (first_failure drv (h ++ [c]) cs) as [[m e']|] eqn:E; [|discriminate].
      intros [= <- _]. apply IH in E. lia.
Qed.

(** A failure among the first calls is the failure of the longer list. *)
Lemma first_failure_app (drv : driver) (h cs1 cs2 : list call) (n : nat) (e : Py.exc) :
  first_failure drv h cs1 = Some (n, e) ->
  first_failure drv h (cs1 ++ cs2) = Some (n, e).
Proof.
  revert h n e. induction cs1 as [|c cs1 IH]; intros h n e; simpl.
  - discriminate.
  - destruct (fails drv h c); [easy|].
    destruct (first_failure drv (h ++ [c]) cs1) as [[m e']|] eqn:E; [|discriminate].
    intros [= <- <-]. now rewrite (IH _ _ _ E).
Qed.

Lemma firstn_app_short {A : Type} (n : nat) (l1 l2 : list A) :
  (n <= List.length l1)%nat -> firstn n (l1 ++ l2) = firstn n l1.
Proof.
  intros H. rewrite firstn_app.
  replace (n - List.length l1)%nat with 0%nat by lia.
  simpl. apply app_nil_r.
Qed.

Lemma In_firstn {A : Type} (n : nat) (l : list A) (a : A) :
  In a (firstn n l) -> In a l.
Proof.
  revert l. induction n as [|n IH]; intros [|b l]; simpl; try easy.
  intros [H|H]; [now left | right; now apply IH].
Qed.

(* ===================================================================== *)
(** * The session: __aenter__, the body, __aexit__ *)
(* ===================================================================== *)

Lemma aenter_issue (drv : driver) (w : world) :
  __aenter__ drv w = (issue startup ;; ret entered) drv w.
Proof.
  change __aenter__ with
    (await playwright_start ;;
     await (chromium_launch true true
              ["--window-size=1024,768"; "--disable-extensions";
               "--disable-file-system"]) ;;
     await browser_new_page ;;
     await (page_set_viewport_size 1024 768) ;;
     await (page_goto "https://google.com") ;;
     ret entered).
  unfold startup. rewrite !issue_cons.
  rewrite bind_assoc. apply bind_congr. intros _ w1.
  rewrite bind_assoc. apply bind_congr. intros _ w2.
  rewrite bind_assoc. apply bind_congr. intros _ w3.
  rewrite bind_assoc. apply bind_congr. intros _ w4.
  rewrite bind_assoc. apply bind_congr. intros _ w5.
  reflexivity.
Qed.

(** X1.  [__aenter__] is all or nothing.  It awaits the five start-up calls
    in order: start the driver, launch the browser (sandboxed, headless, the
    window sized as [dimensions], extensions and file-system access off),
    open a page, size its viewport as [dimensions], navigate to the start
    page.  When the driver serves them all it returns the adapter with its
    three handles bound; otherwise it raises the error of the first call
    that failed, attempts nothing after it, and undoes nothing before it. *)
Theorem aenter_all_or_nothing (drv : driver) (w : world) :
  __aenter__ drv w =
  match first_failure drv (calls w) startup with
  | None => (log_all startup w, Ok entered)
  | Some (n, e) => (log_all (firstn (S n) startup) w, Raise e)
  end.
Proof.
  rewrite aenter_issue, bind_run, issue_outcome.
  destruct (first_failure drv (calls w) startup) as [[n e]|]; reflexivity.
Qed.

Lemma async_with_run {A : Type} (body : HeadlessChromeBrowser -> io A)
  (drv : driver) (w : world) :
  async_with body drv w =
  match __aenter__ drv w with
  | (w1, Ok self) =>
      match __aexit__ self drv (fst (body self drv w1)) with
      | (w3, Ok _) => (w3, snd (body self drv w1))
      | (w3, Raise e) => (w3, Raise e)
      end
  | (w1, Raise e) => (w1, Raise e)
  end.
Proof.
  unfold async_with. rewrite bind_run.
  destruct (__aenter__ drv w) as [w1 [self|e]]; [|reflexivity].
  now destruct (body self drv w1) as [w2 r].
Qed.

(** X2.  A start-up that fails is not cleaned up.  When one of the five
    start-up calls raises, [async with] raises that error without running
    the body and without running [__aexit__]: neither the browser is closed
    nor the driver stopped, also when the driver had been started. *)
Theorem session_startup_failure {A : Type} (body : HeadlessChromeBrowser -> io A)
  (drv : driver) (w : world) (n : nat) (e : Py.exc) :
  first_failure drv (calls w) startup = Some (n, e) ->
  async_with body drv w = (log_all (firstn (S n) startup) w, Raise e)
  /\ ~ In browser_close (firstn (S n) startup)
  /\ ~ In playwright_stop (firstn (S n) startup).
Proof.
  intros H. split; [|split].
  - rewrite async_with_run, aenter_all_or_nothing, H. reflexivity.
  - intros Hin. apply In_firstn in Hin. simpl in Hin.
    repeat (destruct Hin as [Hin|Hin]; [discriminate|]). exact Hin.
  - intros Hin. apply In_firstn in Hin. simpl in Hin.
    repeat (destruct Hin as [Hin|Hin]; [discriminate|]). exact Hin.
Qed.

Lemma session_startup_failure_witness :
  first_failure launch_fails (calls fresh) startup = Some (1%nat, launch_error)
  /\ async_with (fun _ => screenshot) launch_fails fresh =
       ({| calls := [ playwright_start;
                      chromium_launch true true
                        [ "--window-size=1024,768";
                          "--disable-extensions";
                          "--disable-file-system" ] ];
           stdout := [] |}, Raise launch_error).
Proof.
  split; [reflexivity |].
  exact (proj1 (session_startup_failure (fun _ => screenshot) launch_fails fresh
                  1%nat launch_error eq_refl)).
Defined.

Lemma aexit_entered (drv : driver) (w : world) :
  __aexit__ entered drv w = issue teardown drv w.
Proof. rewrite aexit_issue. reflexivity. Qed.

(** X3.  Once [__aenter__] has returned, the session is released whatever
    the body does.  Right after the body's last driver call, whether the
    body returned or raised, the browser is closed, and the driver is
    stopped when the close returned.  [__aexit__] returns [None], so it
    swallows nothing: when both release calls are served, [async with] ends
    exactly as the body ended. *)
Theorem session_always_released {A : Type} (body : HeadlessChromeBrowser -> io A)
  (drv : driver) (w : world) :
  first_failure drv (calls w) startup = None ->
  let ran := body entered drv (log_all startup w) in
  (fst (async_with body drv w) = log_all [browser_close] (fst ran)
   \/ fst (async_with body drv w) = log_all teardown (fst ran))
  /\ (first_failure drv (calls (fst ran)) teardown = None ->
      async_with body drv w = (log_all teardown (fst ran), snd ran)).
Proof.
  intros H ran.
  rewrite async_with_run, aenter_all_or_nothing, H.
  fold ran. rewrite aexit_entered, issue_outcome.
  destruct (first_failure drv (calls (fst ran)) teardown) as [[n e]|] eqn:E.
  - split; [|discriminate].
    pose proof (first_failure_lt _ _ _ _ _ E) as Hn. simpl in Hn.
    destruct n as [|[|n]]; [left | right | lia]; reflexivity.
  - split; [right; reflexivity | reflexivity].
Qed.

Lemma session_always_released_witness :
  first_failure steady (calls fresh) startup = None
  /\ async_with (fun _ => keypress ascii_lower ["ctrl"; "l"]) steady fresh =
       (log_all teardown
          (log_all [ keyboard_down "ControlOrMeta";
                     keyboard_press "l";
                     keyboard_up "ControlOrMeta" ]
             (log_all startup fresh)), Ok tt).
Proof.
  split; [reflexivity |].
  exact (proj2 (session_always_released
                  (fun _ => keypress ascii_lower ["ctrl"; "l"]) steady fresh eq_refl)
               eq_refl).
Defined.

(* ===================================================================== *)
(** * keypress: failures, letter case, mapped names *)
(* ===================================================================== *)

(** X4.  [keypress] releases nothing when it fails before its last loop.
    When a key-down or a key press raises, [keypress] raises that error
    having issued the calls up to it and no key-up: the modifiers that went
    down stay down. *)
Theorem keypress_failure_keeps_modifiers_down
  (lower : string -> string) (keys : list string) (drv : driver) (w : world)
  (n : nat) (e : Py.exc) :
  let names := map (mapped lower) keys in
  let downs := map keyboard_down (filter is_modifier names) in
  let presses := map keyboard_press (filter (fun k => negb (is_modifier k)) names) in
  first_failure drv (calls w) (downs ++ presses) = Some (n, e) ->
  keypress lower keys drv w = (log_all (firstn (S n) (downs ++ presses)) w, Raise e)
  /\ forall key, ~ In (keyboard_up key) (firstn (S n) (downs ++ presses)).
Proof.
  intros names downs presses H. split.
  - rewrite keypress_issue. fold names. fold downs. fold presses.
    rewrite app_assoc, issue_outcome.
    rewrite (first_failure_app _ _ _ (map keyboard_up (rev (filter is_modifier names)))
               _ _ H).
    rewrite firstn_app_short; [reflexivity|].
    apply first_failure_lt in H. lia.
  - intros key Hin. apply In_firstn in Hin. apply in_app_or in Hin.
    destruct Hin as [Hin|Hin]; apply in_map_iff in Hin;
      destruct Hin as [k [Hk _]]; discriminate.
Qed.

Lemma keypress_failure_keeps_modifiers_down_witness :
  first_failure press_fails (calls fresh)
    [keyboard_down "Shift"; keyboard_down "Alt"; keyboard_press "x"; keyboard_press "y"]
  = Some (2%nat, page_crashed)
  /\ keypress ascii_lower ["shift"; "x"; "alt"; "y"] press_fails fresh =
       ({| calls := [keyboard_down "Shift"; keyboard_down "Alt"; keyboard_press "x"];
           stdout := [] |}, Raise page_crashed).
Proof.
  split; [reflexivity |].
  exact (proj1 (keypress_failure_keeps_modifiers_down ascii_lower
                  ["shift"; "x"; "alt"; "y"] press_fails fresh 2%nat page_crashed
                  eq_refl)).
Defined.

Lemma mapped_same_lower (lower : string -> string) (a b : string) :
  lower a = lower b ->
  Py.getitem CUA_KEY_TO_PLAYWRIGHT_KEY (lower a) <> None ->
  mapped lower a = mapped lower b.
Proof.
  intros Hl Hin. unfold mapped, Py.get. rewrite <- Hl.
  destruct (Py.getitem CUA_KEY_TO_PLAYWRIGHT_KEY (lower a)); [reflexivity | easy].
Qed.

(** X5.  For names of the table, letter case does not matter.  Two key
    lists whose names agree, position by position, after lowering, and all
    lower to keys of the table, make [keypress] do the same. *)
Theorem keypress_case_insensitive
  (lower : string -> string) (keys1 keys2 : list string) (drv : driver) (w : world) :
  Forall2 (fun a b => lower a = lower b
                      /\ Py.getitem CUA_KEY_TO_PLAYWRIGHT_KEY (lower a) <> None)
          keys1 keys2 ->
  keypress lower keys1 drv w = keypress lower keys2 drv w.
Proof.
  intros H.
  assert (Hm : map (mapped lower) keys1 = map (mapped lower) keys2).
  { induction H as [|a b l1 l2 [Hl Hin] _ IH]; simpl.
    - reflexivity.
    - now rewrite IH, (mapped_same_lower lower a b Hl Hin). }
  now rewrite !keypress_issue, Hm.
Qed.

Lemma keypress_case_insensitive_witness :
  keypress ascii_lower ["CTRL"; "Enter"] steady fresh =
  keypress ascii_lower ["ctrl"; "ENTER"] steady fresh.
Proof.
  apply keypress_case_insensitive.
  repeat constructor; discriminate.
Defined.

(** Lowered, a value of the table is either no key of the table or a key
    bound to that same value. *)
Lemma table_values_fixed (v : string) :
  In v (map snd CUA_KEY_TO_PLAYWRIGHT_KEY) ->
  Py.get CUA_KEY_TO_PLAYWRIGHT_KEY (ascii_lower v) v = v.
Proof.
  intros H. simpl in H.
  repeat (destruct H as [<- | H]; [reflexivity|]). contradiction.
Qed.

Lemma mapped_idempotent (lower : string -> string) (k : string) :
  (forall v, In v (map snd CUA_KEY_TO_PLAYWRIGHT_KEY) -> lower v = ascii_lower v) ->
  mapped lower (mapped lower k) = mapped lower k.
Proof.
  intros Hl. unfold mapped at 2 3.
  destruct (Py.getitem CUA_KEY_TO_PLAYWRIGHT_KEY (lower k)) as [v|] eqn:E.
  - rewrite (get_present _ _ v k E).
    assert (Hv : In v (map snd CUA_KEY_TO_PLAYWRIGHT_KEY)).
    { apply getitem_In in E. apply in_map_iff. now exists (lower k, v). }
    unfold mapped. rewrite (Hl v Hv). now apply table_values_fixed.
  - rewrite (get_absent _ _ k E). unfold mapped. now rewrite (get_absent _ _ k E).
Qed.

(** X6.  Mapping twice is mapping once: the identifiers the table produces
    are accepted as key names and stand for themselves.  So [keypress] of
    the mapped names does what [keypress] of the names does.  The lowering
    is any function that lowers the table's values, which are ASCII, as
    ASCII lowering does. *)
Theorem keypress_of_mapped
  (lower : string -> string) (keys : list string) (drv : driver) (w : world) :
  (forall v, In v (map snd CUA_KEY_TO_PLAYWRIGHT_KEY) -> lower v = ascii_lower v) ->
  keypress lower (map (mapped lower) keys) drv w = keypress lower keys drv w.
Proof.
  intros Hl. rewrite !keypress_issue, map_map.
  rewrite (map_ext _ (mapped lower) (fun k => mapped_idempotent lower k Hl)).
  reflexivity.
Qed.

Lemma keypress_of_mapped_witness :
  keypress ascii_lower ["ControlOrMeta"; "Escape"; " "; "Divide"] steady fresh =
  keypress ascii_lower ["ctrl"; "esc"; "space"; "/"] steady fresh.
Proof.
  exact (keypress_of_mapped ascii_lower ["ctrl"; "esc"; "space"; "/"] steady fresh
           (fun _ _ => eq_refl)).
Defined.

(* ===================================================================== *)
(** * drag: points that lack a coordinate *)
(* ===================================================================== *)

Lemma move_to_missing (p : Py.dict Z) (key : string) (drv : driver) (w : world) :
  missing_key p = Some key -> move_to p drv w = (w, Raise (Py.KeyError key)).
Proof.
  unfold missing_key, move_to, subscript.
  destruct (Py.getitem p "x") as [x|].
  - destruct (Py.getitem p "y") as [y|]; [discriminate|].
    now intros [= <-].
  - now intros [= <-].
Qed.

(** X7.  A first point without "x" or without "y" makes [drag] raise
    [KeyError] for the first key that is missing, before the pointer is
    touched: no driver call is made, whatever follows in the path. *)
Theorem drag_first_point_incomplete
  (p0 : Py.dict Z) (ps : list (Py.dict Z)) (key : string) (drv : driver) (w : world) :
  missing_key p0 = Some key ->
  drag (p0 :: ps) drv w = (w, Raise (Py.KeyError key)).
Proof.
  intros H. unfold drag. rewrite bind_run.
  now rewrite (move_to_missing p0 key drv w H).
Qed.

Lemma drag_first_point_incomplete_witness :
  drag [[("x", 5%Z)]; point 1 2] steady fresh = (fresh, Raise (Py.KeyError "y")).
Proof.
  exact (drag_first_point_incomplete [("x", 5%Z)] [point 1 2] "y" steady fresh eq_refl).
Defined.

(** X8.  A later point without "x" or without "y" leaves the button down.
    With a first point and further points that hold their coordinates,
    followed by a point that lacks one, and a driver that serves the calls:
    [drag] moves to the first point, presses, moves through the complete
    points, and raises [KeyError] at the incomplete one.  The pointer is
    never released and the rest of the path is not read. *)
Theorem drag_later_point_incomplete
  (p0 : Py.dict Z) (x0 y0 : Z) (good : list (Py.dict Z)) (cs : list (Z * Z))
  (bad : Py.dict Z) (key : string) (rest : list (Py.dict Z))
  (drv : driver) (w : world) :
  has_xy p0 x0 y0 ->
  Forall2 (fun p c => has_xy p (fst c) (snd c)) good cs ->
  missing_key bad = Some key ->
  first_failure drv (calls w)
    (mouse_move x0 y0 :: mouse_down :: map (fun c => mouse_move (fst c) (snd c)) cs)
  = None ->
  drag (p0 :: good ++ bad :: rest) drv w =
  (log_all (mouse_move x0 y0 :: mouse_down
            :: map (fun c => mouse_move (fst c) (snd c)) cs) w,
   Raise (Py.KeyError key))
  /\ ~ In mouse_up (mouse_move x0 y0 :: mouse_down
                    :: map (fun c => mouse_move (fst c) (snd c)) cs).
Proof.
  intros H0 Hgood Hbad Hserved. split.
  - assert (Hrun : drag (p0 :: good ++ bad :: rest) drv w =
                   (issue (mouse_move x0 y0 :: mouse_down
                           :: map (fun c => mouse_move (fst c) (snd c)) cs) ;;
                    raise (Py.KeyError key)) drv w).
    { unfold drag. rewrite (move_to_xy p0 x0 y0 H0).
      rewrite !issue_cons, bind_assoc.
      apply bind_congr. intros _ w1.
      rewrite bind_assoc. apply bind_congr. intros _ w2.
      rewrite !bind_run, <- for_each_app, bind_run.
      rewrite (for_each_move_to good cs Hgood).
      destruct (issue (map (fun c => mouse_move (fst c) (snd c)) cs) drv w2)
        as [w3 [[]|e]]; [|reflexivity].
      simpl for_each. rewrite bind_run.
      now rewrite (move_to_missing bad key drv w3 Hbad). }
    rewrite Hrun, bind_run, issue_outcome, Hserved. reflexivity.
  - simpl. intros [H|[H|H]]; try discriminate.
    apply in_map_iff in H. destruct H as [c [Hc _]]. discriminate.
Qed.

Lemma drag_later_point_incomplete_witness :
  drag [point 10 20; point 30 40; [("x", 50%Z)]; point 70 80] steady fresh =
  ({| calls := [mouse_move 10 20; mouse_down; mouse_move 30 40]; stdout := [] |},
   Raise (Py.KeyError "y")).
Proof.
  assert (Hgood : Forall2 (fun p c => has_xy p (fst c) (snd c))
                    [point 30 40] [(30, 40)]%Z) by (repeat constructor).
  exact (proj1 (drag_later_point_incomplete (point 10 20) 10%Z 20%Z
                  [point 30 40] [(30, 40)]%Z [("x", 50%Z)] "y" [point 70 80]
                  steady fresh (has_xy_point 10 20) Hgood eq_refl eq_refl)).
Defined.

(* ===================================================================== *)
(** * goto: what is not caught *)
(* ===================================================================== *)

(** X9.  [goto] catches [Exception] and nothing wider.  When the navigation
    raises something that is no instance of [Exception] (the cancellation of
    the task, a keyboard interrupt), [goto] raises it to the caller and
    prints nothing. *)
Theorem goto_lets_non_exception_through
  (url : string) (drv : driver) (w : world) (e : Py.exc) :
  fails drv (calls w) (page_goto url) = Some e ->
  Py.isinstance_Exception e = false ->
  goto url drv w = (log (page_goto url) w, Raise e)
  /\ stdout (fst (goto url drv w)) = stdout w.
Proof.
  intros H He. rewrite (goto_passes url drv w e H He). split; reflexivity.
Qed.

Lemma goto_lets_non_exception_through_witness :
  goto "https://example.test" cancelled fresh =
  ({| calls := [page_goto "https://example.test"]; stdout := [] |},
   Raise (Py.mk_exc false "")).
Proof.
  exact (proj1 (goto_lets_non_exception_through "https://example.test" cancelled
                  fresh (Py.mk_exc false "") eq_refl eq_refl)).
Defined.

(* ===================================================================== *)
(** * scroll *)
(* ===================================================================== *)

Lemma append_inv_head (p u v : string) :
  (p ++ u)%string = (p ++ v)%string -> u = v.
Proof.
  induction p as [|a p IH]; simpl.
  - easy.
  - intros [= H]. now apply IH.
Qed.

Lemma length_append (u t : string) :
  String.length (u ++ t)%string = (String.length u + String.length t)%nat.
Proof. induction u as [|a u IH]; simpl; [reflexivity | now rewrite IH]. Qed.

Lemma append_inv_tail (u v t : string) :
  (u ++ t)%string = (v ++ t)%string -> u = v.
Proof.
  intros H.
  assert (Hlen : String.length u = String.length v).
  { apply (f_equal String.length) in H. rewrite !length_append in H. lia. }
  revert v H Hlen. induction u as [|a u IH]; intros [|b v]; simpl; try easy.
  intros [= -> H] [= Hlen]. f_equal. now apply IH.
Qed.

(** Two texts cut at the first occurrence of a character agree part by
    part. *)
Lemma cut_at_char (c : ascii) (u u' r r' : string) :
  free_of c u -> free_of c u' ->
  (u ++ String c r)%string = (u' ++ String c r')%string ->
  u = u' /\ r = r'.
Proof.
  revert u'. induction u as [|a u IH]; intros [|a' u']; simpl.
  - intros _ _ [= ->]. now split.
  - intros _ [Hne _] [= Hc _]. now elim Hne.
  - intros [Hne _] _ [= Hc _]. now elim Hne.
  - intros [_ Hu] [_ Hu'] [= -> H].
    destruct (IH u' Hu Hu' H) as [-> ->]. now split.
Qed.

Lemma uint_free_of_comma (d : Decimal.uint) :
  free_of "," (NilEmpty.string_of_uint d).
Proof.
  induction d; simpl; try exact I; (split; [discriminate | assumption]).
Qed.

(** The decimal text of an [int] holds digits and a sign, and no comma. *)
Lemma str_of_int_free_of_comma (n : Z) : free_of "," (Py.str_of_int n).
Proof.
  unfold Py.str_of_int, NilZero.string_of_int, NilZero.string_of_uint.
  destruct (Z.to_int n) as [d|d]; destruct d;
    repeat (simpl; split; try discriminate); try exact I;
    apply uint_free_of_comma.
Qed.

(** The decimal text of an [int] is the text of no other [int]. *)
Lemma str_of_int_inj (a b : Z) : Py.str_of_int a = Py.str_of_int b -> a = b.
Proof.
  assert (Hparse : forall n,
             NilZero.int_of_string (Py.str_of_int n) = Some (Z.to_int n)).
  { intros n. unfold Py.str_of_int. apply NilZero.isi.
    - destruct n; simpl; try discriminate.
      intros [= H]. now apply (Unsigned.to_uint_nonnil p).
    - destruct n; simpl; try discriminate.
      intros [= H]. now apply (Unsigned.to_uint_nonnil p). }
  intros H. apply (f_equal NilZero.int_of_string) in H.
  rewrite !Hparse in H. injection H as H. now apply DecimalZ.to_int_inj.
Qed.

Lemma scroll_script_inj (sx sy sx' sy' : Z) :
  scroll_script sx sy = scroll_script sx' sy' -> sx = sx' /\ sy = sy'.
Proof.
  unfold scroll_script. intros H.
  apply append_inv_head in H.
  apply (cut_at_char "," _ _ _ _ (str_of_int_free_of_comma sx)
           (str_of_int_free_of_comma sx')) in H.
  destruct H as [Hx Hy]. split.
  - now apply str_of_int_inj.
  - injection Hy as Hy. apply append_inv_tail in Hy. now apply str_of_int_inj.
Qed.

(** X10.  [scroll] moves the pointer to (x, y) and then has the page run
    [window.scrollBy] with the two amounts in decimal.  When the move
    raises, no script is run and the error goes to the caller.  The script
    names its amounts without ambiguity: two scripts are the same text only
    for the same amounts. *)
Theorem scroll_protocol (x y scroll_x scroll_y : Z) (drv : driver) (w : world) :
  scroll x y scroll_x scroll_y drv w =
    issue [mouse_move x y; page_evaluate (scroll_script scroll_x scroll_y)] drv w
  /\ (forall e,
         fails drv (calls w) (mouse_move x y) = Some e ->
         scroll x y scroll_x scroll_y drv w = (log (mouse_move x y) w, Raise e))
  /\ (forall sx' sy',
         scroll_script scroll_x scroll_y = scroll_script sx' sy' ->
         scroll_x = sx' /\ scroll_y = sy').
Proof.
  split; [|split].
  - unfold scroll. rewrite issue_cons. apply bind_congr. intros _ w1.
    now rewrite issue_one.
  - intros e H. unfold scroll. rewrite bind_run.
    now rewrite (await_raises _ _ _ _ H).
  - apply scroll_script_inj.
Qed.

Lemma scroll_protocol_witness :
  scroll 5 6 0 (-120) move_fails fresh =
    ({| calls := [mouse_move 5 6]; stdout := [] |}, Raise page_crashed)
  /\ scroll 5 6 0 (-120) steady fresh =
       ({| calls := [mouse_move 5 6; page_evaluate "window.scrollBy(0, -120)"];
           stdout := [] |}, Ok tt).
Proof.
  split.
  - exact (proj1 (proj2 (scroll_protocol 5 6 0 (-120) move_fails fresh))
                 page_crashed eq_refl).
  - exact (proj1 (scroll_protocol 5 6 0 (-120) steady fresh)).
Defined.
